(** * QR Menu Pro API ([server.py]): categories, products and the admin token

    A shallow embedding of the request handlers of [server.py] and of the
    parts of [bson], [motor] and [python-jose] they call, followed by the
    properties of the handlers.

    - Python [str] is [string]; [bytes] is [list byte]; [int] is [Z] (the
      64-bit range of BSON integers is not modelled); [float] is a binary
      floating-point datum that no handler computes with.
    - [datetime] is the number of microseconds since the epoch (naive UTC).
    - A pydantic model is a record. A stored document is a record too: the
      two collections hold what [create_category] and [create_product]
      insert, the fields of the [...Create] model and ["created_at"], under
      the ["_id"] the driver generates. A collection is a finite map from
      ["_id"] to document, so an ["_id"] occurs once.
    - A handler that awaits the store is a function from the database to a
      result and the database after it (module [Store]); an exception that
      leaves a handler is the result [Raise e], and what was written before
      it stays written.
    - The clock ([datetime.utcnow()]) and the ["_id"] of an inserted
      document are arguments of the handlers that use them. *)

From Stdlib Require Import ZArith NArith Ascii String List Bool.
From Stdlib Require Import Strings.Byte.
From Stdlib Require Import Floats.SpecFloat.
From stdpp Require Import gmap strings list fin_maps sorting.

Open Scope string_scope.
Open Scope Z_scope.

(** ** Time *)

Definition datetime := Z.

(** [timedelta(minutes=m)] *)
Definition timedelta_minutes (m : Z) : Z := m * 60 * 1000000.

(** [calendar.timegm(d.utctimetuple())]: whole seconds since the epoch. *)
Definition timegm (d : datetime) : Z := d / 1000000.

(** ** Exceptions *)

Inductive exn :=
| HTTPException (status_code : Z) (detail : string)
| InvalidId (oid : string)                 (* bson.errors.InvalidId *)
| DuplicateKeyError                        (* pymongo.errors.DuplicateKeyError *)
| JWSError (msg : string)                  (* jose.exceptions.JWSError *)
| JWTError (msg : string)                  (* jose.exceptions.JWTError *)
| ExpiredSignatureError                    (* subclass of JWTError *)
| JWTClaimsError (msg : string).           (* subclass of JWTError *)

(** [isinstance(e, JWTError)] *)
Definition is_JWTError (e : exn) : bool :=
  match e with
  | JWTError _ | ExpiredSignatureError | JWTClaimsError _ => true
  | _ => false
  end.

Inductive Result (A : Type) :=
| Return (a : A)
| Raise (e : exn).
Arguments Return {A} a.
Arguments Raise {A} e.

#[global] Instance Result_ret : MRet Result := fun _ a => Return a.
#[global] Instance Result_bind : MBind Result := fun _ _ f r =>
  match r with
  | Return a => f a
  | Raise e => Raise e
  end.

(** [try: body  except E: handler], for the exceptions [catch] selects. *)
Definition try_except {A} (body : Result A) (catch : exn -> bool)
    (handler : Result A) : Result A :=
  match body with
  | Return a => Return a
  | Raise e => if catch e then handler else Raise e
  end.

(** ** [bson.ObjectId] *)

Module bson.

Definition hex_value (c : ascii) : option N :=
  let n := N_of_ascii c in
  if (48 <=? n)%N && (n <=? 57)%N then Some (n - 48)%N
  else if (97 <=? n)%N && (n <=? 102)%N then Some (n - 87)%N
  else if (65 <=? n)%N && (n <=? 70)%N then Some (n - 55)%N
  else None.

(** [Py_ISSPACE] *)
Definition is_space (c : ascii) : bool :=
  let n := N_of_ascii c in
  ((9 <=? n)%N && (n <=? 13)%N) || (n =? 32)%N.

Definition byte_of_nibbles (hi lo : N) : byte :=
  byte_of_ascii (ascii_of_N (16 * hi + lo)).

(** [bytes.fromhex]: pairs of hexadecimal digits of either case, with
    ASCII white space allowed between the pairs; [None] is [ValueError]. *)
Fixpoint fromhex (s : string) : option (list byte) :=
  match s with
  | EmptyString => Some []
  | String c rest =>
      if is_space c then fromhex rest
      else match rest with
           | EmptyString => None
           | String d rest' =>
               match hex_value c, hex_value d with
               | Some hi, Some lo =>
                   match fromhex rest' with
                   | Some bs => Some (byte_of_nibbles hi lo :: bs)
                   | None => None
                   end
               | _, _ => None
               end
           end
  end.

Definition hex_char (n : N) : ascii :=
  if (n <? 10)%N then ascii_of_N (48 + n) else ascii_of_N (87 + n).

(** [binascii.hexlify(b).decode()]: lower-case digits. *)
Fixpoint hexlify (bs : list byte) : string :=
  match bs with
  | [] => EmptyString
  | b :: bs' =>
      let n := Byte.to_N b in
      String (hex_char (n / 16)%N) (String (hex_char (n mod 16)%N) (hexlify bs'))
  end.

(** [ObjectId(oid)] for a [str]: the twelve bytes the string spells, or
    [InvalidId]. *)
Definition ObjectId (oid : string) : Result (list byte) :=
  if (String.length oid =? 24)%nat then
    match fromhex oid with
    | Some b => Return b
    | None => Raise (InvalidId oid)
    end
  else Raise (InvalidId oid).

(** [str(ObjectId)] *)
Definition str (o : list byte) : string := hexlify o.

End bson.

Abbreviation ObjectId := (list byte) (only parsing).

#[global] Instance byte_eq_dec : EqDecision byte := Byte.byte_eq_dec.
#[global] Instance byte_countable : Countable byte :=
  inj_countable Byte.to_N Byte.of_N Byte.of_to_N.

(** ** Models (pydantic) and stored documents *)

Definition float := spec_float.

(** What [serialize_doc] returns: the document with ["id"] in place of
    ["_id"]. *)
Module Serialized.
Record t (D : Type) := Build { id : string; fields : D }.
Arguments Build {D} id fields.
Arguments id {D} t.
Arguments fields {D} t.
End Serialized.

(** A document of [db.categories]: [CategoryCreate.dict()] and
    ["created_at"]; its ["_id"] is the key it is stored under. *)
Module CategoryDoc.
Record t := Build {
  name_tr : string;
  name_en : string;
  sort_order : Z;
  is_active : bool;
  created_at : datetime
}.

(** One entry [key: value] of a [$set] document. *)
Inductive assignment :=
| set_name_tr (v : string)
| set_name_en (v : string)
| set_sort_order (v : Z)
| set_is_active (v : bool).

Definition assign (d : t) (a : assignment) : t :=
  match a with
  | set_name_tr v => Build v (name_en d) (sort_order d) (is_active d) (created_at d)
  | set_name_en v => Build (name_tr d) v (sort_order d) (is_active d) (created_at d)
  | set_sort_order v => Build (name_tr d) (name_en d) v (is_active d) (created_at d)
  | set_is_active v => Build (name_tr d) (name_en d) (sort_order d) v (created_at d)
  end.

(** [{"$set": update}] applied to a document. *)
Definition set (update : list assignment) (d : t) : t := foldl assign d update.

(** One entry [key: value] of a query document. *)
Inductive condition :=
| is_active_eq (v : bool).

Definition holds (d : t) (c : condition) : bool :=
  match c with
  | is_active_eq v => Bool.eqb (is_active d) v
  end.

Definition matches (query : list condition) (d : t) : bool :=
  forallb (holds d) query.
End CategoryDoc.

Module CategoryCreate.
Record t := Build {
  name_tr : string;
  name_en : string;
  sort_order : Z;        (* = 0 *)
  is_active : bool       (* = True *)
}.

(** [category_dict = category.dict()] followed by
    [category_dict["created_at"] = created_at]. *)
Definition dict (c : t) (created_at : datetime) : CategoryDoc.t :=
  CategoryDoc.Build (name_tr c) (name_en c) (sort_order c) (is_active c) created_at.
End CategoryCreate.

Module CategoryUpdate.
Record t := Build {
  name_tr : option string;
  name_en : option string;
  sort_order : option Z;
  is_active : option bool
}.

(** [category.dict().items()]: every key, a key whose value is [None]
    shown as [None]. *)
Definition items (c : t) : list (option CategoryDoc.assignment) :=
  [ CategoryDoc.set_name_tr <$> name_tr c;
    CategoryDoc.set_name_en <$> name_en c;
    CategoryDoc.set_sort_order <$> sort_order c;
    CategoryDoc.set_is_active <$> is_active c ].
End CategoryUpdate.

(** A document of [db.products]: [ProductCreate.dict()] and
    ["created_at"]. *)
Module ProductDoc.
Record t := Build {
  category_id : string;
  name_tr : string;
  name_en : string;
  description_tr : option string;
  description_en : option string;
  price : float;
  image_url : option string;
  sort_order : Z;
  is_active : bool;
  created_at : datetime
}.

Inductive assignment :=
| set_category_id (v : string)
| set_name_tr (v : string)
| set_name_en (v : string)
| set_description_tr (v : string)
| set_description_en (v : string)
| set_price (v : float)
| set_image_url (v : string)
| set_sort_order (v : Z)
| set_is_active (v : bool).

Definition assign (d : t) (a : assignment) : t :=
  match a with
  | set_category_id v =>
      Build v (name_tr d) (name_en d) (description_tr d) (description_en d)
        (price d) (image_url d) (sort_order d) (is_active d) (created_at d)
  | set_name_tr v =>
      Build (category_id d) v (name_en d) (description_tr d) (description_en d)
        (price d) (image_url d) (sort_order d) (is_active d) (created_at d)
  | set_name_en v =>
      Build (category_id d) (name_tr d) v (description_tr d) (description_en d)
        (price d) (image_url d) (sort_order d) (is_active d) (created_at d)
  | set_description_tr v =>
      Build (category_id d) (name_tr d) (name_en d) (Some v) (description_en d)
        (price d) (image_url d) (sort_order d) (is_active d) (created_at d)
  | set_description_en v =>
      Build (category_id d) (name_tr d) (name_en d) (description_tr d) (Some v)
        (price d) (image_url d) (sort_order d) (is_active d) (created_at d)
  | set_price v =>
      Build (category_id d) (name_tr d) (name_en d) (description_tr d) (description_en d)
        v (image_url d) (sort_order d) (is_active d) (created_at d)
  | set_image_url v =>
      Build (category_id d) (name_tr d) (name_en d) (description_tr d) (description_en d)
        (price d) (Some v) (sort_order d) (is_active d) (created_at d)
  | set_sort_order v =>
      Build (category_id d) (name_tr d) (name_en d) (description_tr d) (description_en d)
        (price d) (image_url d) v (is_active d) (created_at d)
  | set_is_active v =>
      Build (category_id d) (name_tr d) (name_en d) (description_tr d) (description_en d)
        (price d) (image_url d) (sort_order d) v (created_at d)
  end.

Definition set (update : list assignment) (d : t) : t := foldl assign d update.

(** [update.get("category_id")]: [Some] exactly when the key is in the
    dict. *)
Fixpoint get_category_id (update : list assignment) : option string :=
  match update with
  | [] => None
  | set_category_id v :: _ => Some v
  | _ :: update' => get_category_id update'
  end.

Inductive condition :=
| category_id_eq (v : string)
| is_active_eq (v : bool).

Definition holds (d : t) (c : condition) : bool :=
  match c with
  | category_id_eq v => String.eqb (category_id d) v
  | is_active_eq v => Bool.eqb (is_active d) v
  end.

Definition matches (query : list condition) (d : t) : bool :=
  forallb (holds d) query.
End ProductDoc.

Module ProductCreate.
Record t := Build {
  category_id : string;
  name_tr : string;
  name_en : string;
  description_tr : option string;   (* = None *)
  description_en : option string;   (* = None *)
  price : float;
  image_url : option string;        (* = None *)
  sort_order : Z;                   (* = 0 *)
  is_active : bool                  (* = True *)
}.

Definition dict (p : t) (created_at : datetime) : ProductDoc.t :=
  ProductDoc.Build (category_id p) (name_tr p) (name_en p) (description_tr p)
    (description_en p) (price p) (image_url p) (sort_order p) (is_active p)
    created_at.
End ProductCreate.

Module ProductUpdate.
Record t := Build {
  category_id : option string;
  name_tr : option string;
  name_en : option string;
  description_tr : option string;
  description_en : option string;
  price : option float;
  image_url : option string;
  sort_order : option Z;
  is_active : option bool
}.

Definition items (p : t) : list (option ProductDoc.assignment) :=
  [ ProductDoc.set_category_id <$> category_id p;
    ProductDoc.set_name_tr <$> name_tr p;
    ProductDoc.set_name_en <$> name_en p;
    ProductDoc.set_description_tr <$> description_tr p;
    ProductDoc.set_description_en <$> description_en p;
    ProductDoc.set_price <$> price p;
    ProductDoc.set_image_url <$> image_url p;
    ProductDoc.set_sort_order <$> sort_order p;
    ProductDoc.set_is_active <$> is_active p ].
End ProductUpdate.

(** [{k: v for k, v in items if v is not None}] *)
Definition not_None {A} (items : list (option A)) : list A := omap id items.

(** ** The database and the collection operations ([motor]) *)

Module Store.

Record DB := Build {
  categories : gmap ObjectId CategoryDoc.t;
  products : gmap ObjectId ProductDoc.t
}.

Definition initial : DB := Build ∅ ∅.

(** An awaited computation: its result, and the database after it. *)
Definition M (A : Type) : Type := DB -> Result A * DB.

#[global] Instance M_ret : MRet M := fun _ a db => (Return a, db).
#[global] Instance M_bind : MBind M := fun _ _ f m db =>
  match m db with
  | (Return a, db') => f a db'
  | (Raise e, db') => (Raise e, db')
  end.

Definition raise {A} (e : exn) : M A := fun db => (Raise e, db).

(** A computation that does not touch the store. *)
Definition pure {A} (r : Result A) : M A := fun db => (r, db).

Record Collection (D : Type) := {
  read : DB -> gmap ObjectId D;
  write : gmap ObjectId D -> DB -> DB
}.
Arguments read {D} c db.
Arguments write {D} c docs db.

Record InsertOneResult := { inserted_id : ObjectId }.
Record UpdateResult := { matched_count : Z }.
Record DeleteResult := { deleted_count : Z }.

Section Collection.
Context {D : Type} (c : Collection D).

(** [find_one({"_id": _id})]: the document with its ["_id"], or
    [None]. *)
Definition find_one (_id : ObjectId) : M (option (ObjectId * D)) :=
  fun db => (Return (pair _id <$> read c db !! _id), db).

(** [insert_one(document)]; [new_id] is the ["_id"] the driver
    generates for the document. *)
Definition insert_one (document : D) (new_id : ObjectId) : M InsertOneResult :=
  fun db =>
    match read c db !! new_id with
    | Some _ => (Raise DuplicateKeyError, db)
    | None =>
        (Return {| inserted_id := new_id |},
         write c (<[new_id := document]> (read c db)) db)
    end.

(** [update_one({"_id": _id}, {"$set": ...})], the [$set] document
    given by what it does to a document. *)
Definition update_one (_id : ObjectId) (set : D -> D) : M UpdateResult :=
  fun db =>
    match read c db !! _id with
    | Some d =>
        (Return {| matched_count := 1 |},
         write c (<[_id := set d]> (read c db)) db)
    | None => (Return {| matched_count := 0 |}, db)
    end.

(** [delete_one({"_id": _id})] *)
Definition delete_one (_id : ObjectId) : M DeleteResult :=
  fun db =>
    match read c db !! _id with
    | Some _ =>
        (Return {| deleted_count := 1 |}, write c (delete _id (read c db)) db)
    | None => (Return {| deleted_count := 0 |}, db)
    end.

(** The documents a query matches. *)
Definition find (query : D -> bool) (db : DB) : list (ObjectId * D) :=
  List.filter (fun doc => query doc.2) (map_to_list (read c db)).

(** [count_documents(query)] *)
Definition count_documents (query : D -> bool) : M Z :=
  fun db => (Return (Z.of_nat (length (find query db))), db).

(** The order of [sort(key, 1)]. *)
Definition ascending (key : D -> Z) (a b : ObjectId * D) : Prop :=
  (key a.2 <= key b.2)%Z.

#[global] Instance ascending_dec key a b : Decision (ascending key a b) :=
  Z_le_dec _ _.

(** [find(query).sort(key, 1).to_list(n)]: ascending by the key, at
    most [n] documents. *)
Definition find_sort_to_list (query : D -> bool) (key : D -> Z)
    (n : nat) : M (list (ObjectId * D)) :=
  fun db =>
    (Return (take n (merge_sort (ascending key) (find query db))), db).
End Collection.

Definition categories_collection : Collection CategoryDoc.t :=
  {| read := categories;
     write := fun docs db => Build docs (products db) |}.

Definition products_collection : Collection ProductDoc.t :=
  {| read := products;
     write := fun docs db => Build (categories db) docs |}.

End Store.

Import Store.

(** ** Helper functions *)

Definition serialize {D} (doc : ObjectId * D) : Serialized.t D :=
  Serialized.Build (bson.str doc.1) doc.2.

(** [serialize_doc]: [None] stays [None]. *)
Definition serialize_doc {D} (doc : option (ObjectId * D)) : option (Serialized.t D) :=
  match doc with
  | None => None
  | Some doc => Some (serialize doc)
  end.

(** ** Category endpoints

    [username] is what [Depends(verify_token)] hands to the handler;
    [utcnow] is what [datetime.utcnow()] reads during the call. *)

Definition get_categories (active_only : bool) : M (list (Serialized.t CategoryDoc.t)) :=
  let query := if active_only then [CategoryDoc.is_active_eq true] else [] in
  categories ← find_sort_to_list categories_collection
                  (CategoryDoc.matches query) CategoryDoc.sort_order 100;
  mret (serialize <$> categories).

Definition get_category (category_id : string) : M (option (Serialized.t CategoryDoc.t)) :=
  _id ← pure (bson.ObjectId category_id);
  category ← find_one categories_collection _id;
  match category with
  | None => raise (HTTPException 404 "Category not found")
  | Some _ => mret (serialize_doc category)
  end.

Definition create_category (category : CategoryCreate.t) (username : string)
    (utcnow : datetime) (new_id : ObjectId) : M (option (Serialized.t CategoryDoc.t)) :=
  let category_dict := CategoryCreate.dict category utcnow in
  result ← insert_one categories_collection category_dict new_id;
  new_category ← find_one categories_collection (inserted_id result);
  mret (serialize_doc new_category).

Definition update_category (category_id : string) (category : CategoryUpdate.t)
    (username : string) : M (option (Serialized.t CategoryDoc.t)) :=
  let update_data := not_None (CategoryUpdate.items category) in
  match update_data with
  | [] => raise (HTTPException 400 "No fields to update")
  | _ :: _ =>
      _id ← pure (bson.ObjectId category_id);
      result ← update_one categories_collection _id (CategoryDoc.set update_data);
      if matched_count result =? 0
      then raise (HTTPException 404 "Category not found")
      else
        _id ← pure (bson.ObjectId category_id);
        updated_category ← find_one categories_collection _id;
        mret (serialize_doc updated_category)
  end.

Definition delete_category (category_id : string) (username : string) : M string :=
  (* Check if category has products *)
  products_count ← count_documents products_collection
                      (ProductDoc.matches [ProductDoc.category_id_eq category_id]);
  if 0 <? products_count
  then raise (HTTPException 400 "Cannot delete category with products")
  else
    _id ← pure (bson.ObjectId category_id);
    result ← delete_one categories_collection _id;
    if deleted_count result =? 0
    then raise (HTTPException 404 "Category not found")
    else mret "Category deleted successfully".

(** ** Product endpoints *)

(** Truth value of an [Optional[str]]. *)
Definition truthy (s : option string) : bool :=
  match s with
  | None | Some EmptyString => false
  | Some _ => true
  end.

Definition get_products (category_id : option string) (active_only : bool)
    : M (list (Serialized.t ProductDoc.t)) :=
  let query : list ProductDoc.condition := [] in
  let query :=
    match category_id with
    | Some c =>
        if truthy category_id then (query ++ [ProductDoc.category_id_eq c])%list
        else query
    | None => query
    end in
  let query :=
    if active_only then (query ++ [ProductDoc.is_active_eq true])%list else query in
  products ← find_sort_to_list products_collection
                (ProductDoc.matches query) ProductDoc.sort_order 1000;
  mret (serialize <$> products).

Definition get_product (product_id : string) : M (option (Serialized.t ProductDoc.t)) :=
  _id ← pure (bson.ObjectId product_id);
  product ← find_one products_collection _id;
  match product with
  | None => raise (HTTPException 404 "Product not found")
  | Some _ => mret (serialize_doc product)
  end.

Definition create_product (product : ProductCreate.t) (username : string)
    (utcnow : datetime) (new_id : ObjectId) : M (option (Serialized.t ProductDoc.t)) :=
  (* Verify category exists *)
  _id ← pure (bson.ObjectId (ProductCreate.category_id product));
  category ← find_one categories_collection _id;
  match category with
  | None => raise (HTTPException 404 "Category not found")
  | Some _ =>
      let product_dict := ProductCreate.dict product utcnow in
      result ← insert_one products_collection product_dict new_id;
      new_product ← find_one products_collection (inserted_id result);
      mret (serialize_doc new_product)
  end.

Definition update_product (product_id : string) (product : ProductUpdate.t)
    (username : string) : M (option (Serialized.t ProductDoc.t)) :=
  let update_data := not_None (ProductUpdate.items product) in
  match update_data with
  | [] => raise (HTTPException 400 "No fields to update")
  | _ :: _ =>
      (* If category_id is being updated, verify it exists *)
      _ ← match ProductDoc.get_category_id update_data with
          | Some c =>
              _id ← pure (bson.ObjectId c);
              category ← find_one categories_collection _id;
              match category with
              | None => raise (HTTPException 404 "Category not found")
              | Some _ => mret tt
              end
          | None => mret tt
          end;
      _id ← pure (bson.ObjectId product_id);
      result ← update_one products_collection _id (ProductDoc.set update_data);
      if matched_count result =? 0
      then raise (HTTPException 404 "Product not found")
      else
        _id ← pure (bson.ObjectId product_id);
        updated_product ← find_one products_collection _id;
        mret (serialize_doc updated_product)
  end.

Definition delete_product (product_id : string) (username : string) : M string :=
  _id ← pure (bson.ObjectId product_id);
  result ← delete_one products_collection _id;
  if deleted_count result =? 0
  then raise (HTTPException 404 "Product not found")
  else mret "Product deleted successfully".

(** ** Tokens ([jose.jwt])

    The claims of this program's tokens are ["sub"] and ["exp"]. A token
    string is taken by what it decodes to: a header algorithm, the claims
    and a signature, or nothing ([Malformed]). The keyed hash is symbolic:
    the signature of a payload under a key is the record of the three, so
    two signatures agree exactly when key, algorithm and payload do. Only
    the shared-secret algorithms are covered. *)

Module jose.

(** [T] is how ["exp"] is written: a [datetime] in the dict handed to
    [encode], whole seconds since the epoch in a token. *)
Record claims (T : Type) := Claims { sub : option string; exp : option T }.
Arguments Claims {T} sub exp.
Arguments sub {T} c.
Arguments exp {T} c.

Record mac := HMAC { mac_key : string; mac_alg : string; mac_payload : claims Z }.

Inductive token :=
| Compact (alg : string) (payload : claims Z) (signature : mac)
| Malformed (raw : string).

#[global] Instance claims_eq_dec : EqDecision (claims Z).
Proof. solve_decision. Defined.

#[global] Instance mac_eq_dec : EqDecision mac.
Proof. solve_decision. Defined.

Definition supported (algorithm : string) : bool :=
  bool_decide (algorithm ∈ ["HS256"; "HS384"; "HS512"]).

(** [jwt.encode(claims, key, algorithm=algorithm)]; a [datetime] under
    ["exp"] is written as [timegm] of it. *)
Definition encode (c : claims datetime) (key algorithm : string) : Result token :=
  if supported algorithm then
    let payload := Claims (sub c) (timegm <$> exp c) in
    Return (Compact algorithm payload (HMAC key algorithm payload))
  else Raise (JWSError "Algorithm not supported.").

(** [jwt.decode(token, key, algorithms=algorithms)], the clock reading
    [utcnow] during the call. *)
Definition decode (t : token) (key : string) (algorithms : list string)
    (utcnow : datetime) : Result (claims Z) :=
  match t with
  | Malformed _ => Raise (JWTError "Error decoding token.")
  | Compact alg payload signature =>
      if negb (bool_decide (alg ∈ algorithms))
      then Raise (JWTError "The specified alg value is not allowed")
      else if negb (supported alg)
      then Raise (JWTError "Invalid or unsupported algorithm")
      else if negb (bool_decide (signature = HMAC key alg payload))
      then Raise (JWTError "Signature verification failed.")
      else
        match exp payload with
        | Some e =>
            if e <? timegm utcnow then Raise ExpiredSignatureError
            else Return payload
        | None => Return payload
        end
  end.

End jose.

(** ** Configuration and authentication *)

Record Settings := {
  SECRET_KEY : string;
  ALGORITHM : string;
  ACCESS_TOKEN_EXPIRE_MINUTES : Z;
  ADMIN_USERNAME : string;
  ADMIN_PASSWORD : string
}.

(** The values [os.getenv] falls back to. *)
Definition defaults : Settings := {|
  SECRET_KEY := "your-secret-key-change-in-production-2024";
  ALGORITHM := "HS256";
  ACCESS_TOKEN_EXPIRE_MINUTES := 30;
  ADMIN_USERNAME := "admin";
  ADMIN_PASSWORD := "admin123"
|}.

Module LoginRequest.
Record t := Build { username : string; password : string }.
End LoginRequest.

Module Token.
Record t := Build { access_token : jose.token; token_type : string }.
End Token.

Module HTTPAuthorizationCredentials.
Record t := Build { scheme : string; credentials : jose.token }.
End HTTPAuthorizationCredentials.

Section Auth.
Variable env : Settings.

Definition create_access_token (data : jose.claims datetime) (utcnow : datetime)
    : Result jose.token :=
  let to_encode := data in
  let expire := utcnow + timedelta_minutes (ACCESS_TOKEN_EXPIRE_MINUTES env) in
  let to_encode := jose.Claims (jose.sub to_encode) (Some expire) in
  encoded_jwt ← jose.encode to_encode (SECRET_KEY env) (ALGORITHM env);
  mret encoded_jwt.

Definition verify_token (credentials : HTTPAuthorizationCredentials.t)
    (utcnow : datetime) : Result string :=
  try_except
    (let token := HTTPAuthorizationCredentials.credentials credentials in
     payload ← jose.decode token (SECRET_KEY env) [ALGORITHM env] utcnow;
     match jose.sub payload with
     | None => Raise (HTTPException 401 "Invalid authentication credentials")
     | Some username => Return username
     end)
    is_JWTError
    (Raise (HTTPException 401 "Invalid authentication credentials")).

Definition login (request : LoginRequest.t) (utcnow : datetime) : Result Token.t :=
  if String.eqb (LoginRequest.username request) (ADMIN_USERNAME env)
     && String.eqb (LoginRequest.password request) (ADMIN_PASSWORD env)
  then
    access_token ← create_access_token
                      (jose.Claims (Some (LoginRequest.username request)) None)
                      utcnow;
    mret (Token.Build access_token "bearer")
  else Raise (HTTPException 401 "Incorrect username or password").

End Auth.

(** ** Sequences of mutating requests *)

Inductive request :=
| POST_category (category : CategoryCreate.t) (utcnow : datetime) (new_id : ObjectId)
| PUT_category (category_id : string) (category : CategoryUpdate.t)
| DELETE_category (category_id : string)
| POST_product (product : ProductCreate.t) (utcnow : datetime) (new_id : ObjectId)
| PUT_product (product_id : string) (product : ProductUpdate.t)
| DELETE_product (product_id : string).

(** The database after a request, whatever the handler answers. *)
Definition handle (username : string) (db : DB) (r : request) : DB :=
  match r with
  | POST_category category utcnow new_id =>
      (create_category category username utcnow new_id db).2
  | PUT_category category_id category =>
      (update_category category_id category username db).2
  | DELETE_category category_id => (delete_category category_id username db).2
  | POST_product product utcnow new_id =>
      (create_product product username utcnow new_id db).2
  | PUT_product product_id product =>
      (update_product product_id product username db).2
  | DELETE_product product_id => (delete_product product_id username db).2
  end.

Definition serve (username : string) (requests : list request) (db : DB) : DB :=
  foldl (handle username) db requests.

(** A [category_id] resolves when the lookup the handlers do with it,
    [find_one({"_id": ObjectId(category_id)})], finds a category. *)
Definition resolves (db : DB) (category_id : string) : Prop :=
  ∃ _id, bson.ObjectId category_id = Return _id ∧ is_Some (categories db !! _id).

Definition referential_integrity (db : DB) : Prop :=
  ∀ _id p, products db !! _id = Some p → resolves db (ProductDoc.category_id p).

(** [s] is the text of the twelve-byte id [_id]. *)
Definition spells (s : string) (_id : ObjectId) : Prop :=
  bson.ObjectId s = Return _id ∧ length _id = 12%nat.

(** [s] is spelled the way the server prints an id: if it is the text of
    an ObjectId, it is the lower-case text [str] gives back. *)
Definition canonical (s : string) : Prop :=
  ∀ _id, bson.ObjectId s = Return _id → bson.str _id = s.

Definition canonical_request (r : request) : Prop :=
  match r with
  | POST_product product _ _ => canonical (ProductCreate.category_id product)
  | PUT_product _ product =>
      ∀ c, ProductUpdate.category_id product = Some c → canonical c
  | DELETE_category category_id => canonical category_id
  | _ => True
  end.

Definition canonical_store (db : DB) : Prop :=
  ∀ _id p, products db !! _id = Some p → canonical (ProductDoc.category_id p).

(** A field whose value in the payload is [None] has after the update the
    value it had before. *)
Definition kept {A B} (payload : option A) (before after : B) : Prop :=
  payload = None → after = before.

(** ** Sample data *)

Module Sample.
Definition drinks_id : ObjectId :=
  [x50; x7f; x1f; x77; xbc; xf8; x6c; xd7; x99; x43; x90; x11].
Definition cola_id : ObjectId :=
  [x50; x7f; x1f; x77; xbc; xf8; x6c; xd7; x99; x43; x90; x12].

Definition drinks : CategoryCreate.t :=
  CategoryCreate.Build "Icecekler" "Drinks" 1 true.

(** price 2.5 *)
Definition cola : ProductCreate.t :=
  ProductCreate.Build "507f1f77bcf86cd799439011" "Kola" "Cola" None None
    (S754_finite false 5 (-1)) None 0 true.

Definition menu : DB :=
  serve "admin" [POST_category drinks 0 drinks_id; POST_product cola 0 cola_id]
    Store.initial.

Definition only_drinks : DB :=
  serve "admin" [POST_category drinks 0 drinks_id] Store.initial.

(** A store with 101 categories, [sort_order] 0 to 100. *)
Definition nth_id (i : nat) : ObjectId :=
  replicate 11 x00 ++ [default x00 (Byte.of_N (N.of_nat i))].

Definition nth_category (i : nat) : request :=
  POST_category (CategoryCreate.Build "Kategori" "Category" (Z.of_nat i) true)
    0 (nth_id i).

Definition crowded : DB :=
  serve "admin" (nth_category <$> seq 0 101) Store.initial.

(** Bearer credentials: a token of the default configuration for "admin"
    that expires at second 1800, and one signed with another key. *)
Definition admin_claims : jose.claims Z := jose.Claims (Some "admin") (Some 1800).

Definition bearer : HTTPAuthorizationCredentials.t :=
  HTTPAuthorizationCredentials.Build "Bearer"
    (jose.Compact "HS256" admin_claims
       (jose.HMAC "your-secret-key-change-in-production-2024" "HS256" admin_claims)).

Definition forged : HTTPAuthorizationCredentials.t :=
  HTTPAuthorizationCredentials.Build "Bearer"
    (jose.Compact "HS256" admin_claims (jose.HMAC "guess" "HS256" admin_claims)).
End Sample.

(** The document [$set] leaves: each field has the value of the payload
    where the payload has one, and its old value where it has [None]. *)
Definition merge_category (category : CategoryUpdate.t) (d : CategoryDoc.t)
    : CategoryDoc.t :=
  CategoryDoc.Build
    (default (CategoryDoc.name_tr d) (CategoryUpdate.name_tr category))
    (default (CategoryDoc.name_en d) (CategoryUpdate.name_en category))
    (default (CategoryDoc.sort_order d) (CategoryUpdate.sort_order category))
    (default (CategoryDoc.is_active d) (CategoryUpdate.is_active category))
    (CategoryDoc.created_at d).

Definition merge_product (product : ProductUpdate.t) (d : ProductDoc.t)
    : ProductDoc.t :=
  ProductDoc.Build
    (default (ProductDoc.category_id d) (ProductUpdate.category_id product))
    (default (ProductDoc.name_tr d) (ProductUpdate.name_tr product))
    (default (ProductDoc.name_en d) (ProductUpdate.name_en product))
    (match ProductUpdate.description_tr product with
     | Some v => Some v
     | None => ProductDoc.description_tr d
     end)
    (match ProductUpdate.description_en product with
     | Some v => Some v
     | None => ProductDoc.description_en d
     end)
    (default (ProductDoc.price d) (ProductUpdate.price product))
    (match ProductUpdate.image_url product with
     | Some v => Some v
     | None => ProductDoc.image_url d
     end)
    (default (ProductDoc.sort_order d) (ProductUpdate.sort_order product))
    (default (ProductDoc.is_active d) (ProductUpdate.is_active product))
    (ProductDoc.created_at d).

(** ** Routes that depend on [verify_token]

    [username: str = Depends(verify_token)]: the dependency runs first, and
    the endpoint runs with what it returns; an exception of the dependency
    is the answer, and the endpoint does not run. *)

Inductive response :=
| CategoryResponse (category : option (Serialized.t CategoryDoc.t))
| ProductResponse (product : option (Serialized.t ProductDoc.t))
| MessageResponse (message : string).

(** The endpoint a mutating request is routed to. *)
Definition endpoint (r : request) (username : string) : M response :=
  match r with
  | POST_category category utcnow new_id =>
      answer ← create_category category username utcnow new_id;
      mret (CategoryResponse answer)
  | PUT_category category_id category =>
      answer ← update_category category_id category username;
      mret (CategoryResponse answer)
  | DELETE_category category_id =>
      answer ← delete_category category_id username;
      mret (MessageResponse answer)
  | POST_product product utcnow new_id =>
      answer ← create_product product username utcnow new_id;
      mret (ProductResponse answer)
  | PUT_product product_id product =>
      answer ← update_product product_id product username;
      mret (ProductResponse answer)
  | DELETE_product product_id =>
      answer ← delete_product product_id username;
      mret (MessageResponse answer)
  end.

Section Routes.
Variable env : Settings.

Definition Depends_verify_token {A} (credentials : HTTPAuthorizationCredentials.t)
    (utcnow : datetime) (endpoint : string → M A) : M A :=
  username ← pure (verify_token env credentials utcnow);
  endpoint username.

(** [GET /api/auth/verify] *)
Definition verify (credentials : HTTPAuthorizationCredentials.t) (utcnow : datetime)
    : Result string :=
  username ← verify_token env credentials utcnow;
  mret username.

(** A mutating request as it arrives: the bearer credentials, the clock
    when the dependency runs, and the request. *)
Definition route (credentials : HTTPAuthorizationCredentials.t) (utcnow : datetime)
    (r : request) : M response :=
  Depends_verify_token credentials utcnow (endpoint r).

(** The database after a sequence of arriving requests. *)
Definition serve_routes
    (arrivals : list (HTTPAuthorizationCredentials.t * datetime * request))
    (db : DB) : DB :=
  foldl (λ db a, (route a.1.1 a.1.2 a.2 db).2) db arrivals.

End Routes.

(** ** Image upload and QR code

    The directory of uploads is a finite map from path to content; a write
    that the operating system refuses is not modelled. [uuid4] is the text
    of the identifier [uuid.uuid4()] draws during the call. *)

Module UploadFile.
Record t := Build {
  filename : string;
  content_type : string;
  content : list byte
}.
End UploadFile.

(** [s.split(sep)] for a one-character separator, as the first piece and
    the pieces after it. *)
Fixpoint split (sep : ascii) (s : string) : string * list string :=
  match s with
  | EmptyString => (EmptyString, [])
  | String c rest =>
      let (piece, pieces) := split sep rest in
      if Ascii.eqb c sep then (EmptyString, piece :: pieces)
      else (String c piece, pieces)
  end.

(** [pieces[-1]] *)
Definition last_piece (pieces : string * list string) : string :=
  List.last pieces.2 pieces.1.

Definition upload_image (file : UploadFile.t) (username : string) (uuid4 : string)
    (files : gmap string (list byte)) : Result string * gmap string (list byte) :=
  (* Validate file type *)
  if negb (String.prefix "image/" (UploadFile.content_type file))
  then (Raise (HTTPException 400 "File must be an image"), files)
  else
    (* Generate unique filename *)
    let file_extension := last_piece (split "." (UploadFile.filename file)) in
    let unique_filename := (uuid4 ++ "." ++ file_extension)%string in
    let file_path := ("uploads/" ++ unique_filename)%string in
    (* Save file *)
    let content := UploadFile.content file in
    (Return ("/uploads/" ++ unique_filename)%string, <[file_path := content]> files).

Section QRCode.
(** [qrcode]: the PNG image of the code of a text. *)
Variable qr_png : string → list byte.

Definition generate_qr_code (url : string) (files : gmap string (list byte))
    : Result string * gmap string (list byte) :=
  let img_bytes := qr_png url in
  (* Save to file *)
  let qr_path := "uploads/qr_menu.png" in
  (Return "/uploads/qr_menu.png", <[qr_path := img_bytes]> files).

End QRCode.

(** * Properties *)

Ltac run :=
  unfold mbind, M_bind, mret, M_ret, pure, raise, find_one, insert_one,
    update_one, delete_one, count_documents; simpl.

Lemma ObjectId_Raise s e : bson.ObjectId s = Raise e → e = InvalidId s.
Proof.
  unfold bson.ObjectId.
  destruct (_ =? _)%nat; [destruct (bson.fromhex s)|]; congruence.
Qed.

Lemma elem_of_find {D} (c : Collection D) (query : D → bool) db _id d :
  (_id, d) ∈ find c query db ↔ read c db !! _id = Some d ∧ query d = true.
Proof.
  unfold find. rewrite list_elem_of_In, filter_In, <- list_elem_of_In.
  rewrite elem_of_map_to_list. reflexivity.
Qed.

Lemma matches_category_id category_id p :
  ProductDoc.matches [ProductDoc.category_id_eq category_id] p = true
  ↔ ProductDoc.category_id p = category_id.
Proof.
  simpl. rewrite andb_true_r. apply String.eqb_eq.
Qed.

(** *** Category delete *)




(** *** Product create *)

Lemma not_resolves_lookup db s _id :
  ¬ resolves db s → bson.ObjectId s = Return _id → categories db !! _id = None.
Proof.
  intros Hno Hid. destruct (categories db !! _id) eqn:E; [|done].
  exfalso. apply Hno. exists _id. rewrite E. eauto.
Qed.




(** *** Product update *)




(** *** Empty updates *)

(** C5. An update that supplies no field (every field of the payload is
    [None]) raises HTTP 400 "No fields to update" from [update_category]
    and from [update_product], whatever the id, and the store is as
    before. *)
Theorem update_without_fields category_id product_id username db :
  update_category category_id (CategoryUpdate.Build None None None None) username db
  = (Raise (HTTPException 400 "No fields to update"), db)
  ∧ update_product product_id
      (ProductUpdate.Build None None None None None None None None None) username db
    = (Raise (HTTPException 400 "No fields to update"), db).
Proof. split; reflexivity. Qed.

(** *** Get by id *)

Lemma hexlify_low_digit (b : byte) :
  (N_of_ascii (bson.hex_char (Byte.to_N b mod 16)) <=? 102)%N = true.
Proof. destruct b; reflexivity. Qed.




(** *** Login *)



(** *** Token expiry *)

Lemma timegm_add_minutes (T m : Z) :
  timegm (T + timedelta_minutes m) = timegm T + m * 60.
Proof.
  unfold timegm, timedelta_minutes.
  replace (m * 60 * 1000000) with ((m * 60) * 1000000) by lia.
  apply Z.div_add. lia.
Qed.

Lemma verify_token_decode_error env credentials utcnow e :
  jose.decode (HTTPAuthorizationCredentials.credentials credentials)
    (SECRET_KEY env) [ALGORITHM env] utcnow = Raise e →
  is_JWTError e = true →
  verify_token env credentials utcnow
  = Raise (HTTPException 401 "Invalid authentication credentials").
Proof.
  intros H He. unfold verify_token. simpl. rewrite H. simpl. rewrite He.
  reflexivity.
Qed.

(** C9. With the 30 minute lifetime and a supported algorithm, the token
    [create_access_token] issues at time [T] for an identity is accepted
    by [verify_token] 29 minutes later, which returns the identity, and is
    refused with HTTP 401 31 minutes later. Whatever the token,
    [verify_token] raises HTTP 401 when it is malformed, when its
    signature is not the one the secret key gives its header and claims,
    and when the clock, in whole seconds, is past its ["exp"]. *)
Theorem token_expiry env identity T :
  ACCESS_TOKEN_EXPIRE_MINUTES env = 30 →
  jose.supported (ALGORITHM env) = true →
  let unauthorized : Result string :=
    Raise (HTTPException 401 "Invalid authentication credentials") in
  (∃ token,
     create_access_token env (jose.Claims (Some identity) None) T = Return token
     ∧ (∀ scheme,
          verify_token env (HTTPAuthorizationCredentials.Build scheme token)
            (T + timedelta_minutes 29) = Return identity
          ∧ verify_token env (HTTPAuthorizationCredentials.Build scheme token)
              (T + timedelta_minutes 31) = unauthorized))
  ∧ (∀ scheme raw utcnow,
       verify_token env (HTTPAuthorizationCredentials.Build scheme (jose.Malformed raw))
         utcnow = unauthorized)
  ∧ (∀ scheme alg payload signature utcnow,
       signature ≠ jose.HMAC (SECRET_KEY env) alg payload →
       verify_token env
         (HTTPAuthorizationCredentials.Build scheme (jose.Compact alg payload signature))
         utcnow = unauthorized)
  ∧ (∀ scheme alg payload signature utcnow e,
       jose.exp payload = Some e → e < timegm utcnow →
       verify_token env
         (HTTPAuthorizationCredentials.Build scheme (jose.Compact alg payload signature))
         utcnow = unauthorized).
Proof.
  intros Httl Halg unauthorized. split; [|split; [|split]].
  - unfold create_access_token, jose.encode. rewrite Halg, Httl. simpl.
    eexists. split; [reflexivity|]. intros scheme.
    unfold verify_token, jose.decode. simpl.
    rewrite Halg. simpl.
    rewrite !bool_decide_eq_true_2 by (reflexivity || apply list_elem_of_here).
    simpl. rewrite !timegm_add_minutes. split.
    + destruct (Z.ltb_spec (timegm T + 30 * 60) (timegm T + 29 * 60)); [lia|].
      reflexivity.
    + destruct (Z.ltb_spec (timegm T + 30 * 60) (timegm T + 31 * 60)); [|lia].
      reflexivity.
  - intros scheme raw utcnow. reflexivity.
  - intros scheme alg payload signature utcnow Hsig.
    unfold verify_token, jose.decode. simpl.
    destruct (negb (bool_decide (alg ∈ [ALGORITHM env]))); [reflexivity|].
    destruct (negb (jose.supported alg)); [reflexivity|].
    rewrite bool_decide_eq_false_2 by assumption. reflexivity.
  - intros scheme alg payload signature utcnow e Hexp Hlt.
    unfold verify_token, jose.decode. simpl.
    destruct (negb (bool_decide (alg ∈ [ALGORITHM env]))); [reflexivity|].
    destruct (negb (jose.supported alg)); [reflexivity|].
    destruct (negb (bool_decide _)); [reflexivity|].
    rewrite Hexp. destruct (Z.ltb_spec e (timegm utcnow)); [reflexivity | lia].
Qed.

Lemma token_expiry_witness :
  let token :=
    jose.Compact "HS256" (jose.Claims (Some "admin") (Some 1800))
      (jose.HMAC "your-secret-key-change-in-production-2024" "HS256"
         (jose.Claims (Some "admin") (Some 1800))) in
  let forged :=
    jose.Compact "HS256" (jose.Claims (Some "admin") (Some 1800))
      (jose.HMAC "guess" "HS256" (jose.Claims (Some "admin") (Some 1800))) in
  let bearer := HTTPAuthorizationCredentials.Build "Bearer" in
  let unauthorized : Result string :=
    Raise (HTTPException 401 "Invalid authentication credentials") in
  (∃ issued,
     create_access_token defaults (jose.Claims (Some "admin") None) 0 = Return issued
     ∧ verify_token defaults (bearer issued) (timedelta_minutes 29) = Return "admin"
     ∧ verify_token defaults (bearer issued) (timedelta_minutes 31) = unauthorized)
  ∧ verify_token defaults (bearer forged) 0 = unauthorized
  ∧ verify_token defaults (bearer token) 1801000000 = unauthorized.
Proof.
  intros token forged bearer unauthorized.
  destruct (token_expiry defaults "admin" 0 eq_refl eq_refl)
    as ((issued & Hissued & Hverify) & _ & Hsig & Hexp).
  split; [|split].
  - exists issued. split; [exact Hissued|]. exact (Hverify "Bearer").
  - apply Hsig. discriminate.
  - apply Hexp with (e := 1800); [reflexivity | vm_compute; reflexivity].
Defined.

(** *** Partial updates *)

Lemma Forall_not_None {A} (P : A → Prop) (items : list (option A)) :
  Forall (λ o, ∀ x, o = Some x → P x) items → Forall P (not_None items).
Proof.
  unfold not_None. induction 1 as [|o items Ho _ IH]; simpl; [constructor|].
  destruct o as [x|]; simpl; [constructor; auto | assumption].
Qed.

Section CategorySet.
Context {A : Type} (get : CategoryDoc.t → A).

Lemma CategoryDoc_set_keeps update d :
  Forall (λ a, ∀ d', get (CategoryDoc.assign d' a) = get d') update →
  get (CategoryDoc.set update d) = get d.
Proof.
  unfold CategoryDoc.set. intros H. revert d.
  induction H as [|a update Ha _ IH]; intros d; simpl; [reflexivity|].
  rewrite IH. apply Ha.
Qed.
End CategorySet.

Section ProductSet.
Context {A : Type} (get : ProductDoc.t → A).

Lemma ProductDoc_set_keeps update d :
  Forall (λ a, ∀ d', get (ProductDoc.assign d' a) = get d') update →
  get (ProductDoc.set update d) = get d.
Proof.
  unfold ProductDoc.set. intros H. revert d.
  induction H as [|a update Ha _ IH]; intros d; simpl; [reflexivity|].
  rewrite IH. apply Ha.
Qed.
End ProductSet.

(** No assignment of a [$set] document takes an optional text away. *)
Lemma ProductDoc_set_is_Some (get : ProductDoc.t → option string) update d :
  (∀ a d', is_Some (get d') → is_Some (get (ProductDoc.assign d' a))) →
  is_Some (get d) → is_Some (get (ProductDoc.set update d)).
Proof.
  unfold ProductDoc.set. intros Hstep. revert d.
  induction update as [|a update IH]; intros d Hd; simpl; [assumption|].
  apply IH, Hstep, Hd.
Qed.

(** One entry of [items]: it frames the field [get] when it writes another
    field, or when the payload has [None] for it. *)
Ltac frame_item :=
  let x := fresh in
  let E := fresh in
  intros x E;
  match type of E with
  | _ <$> None = Some _ => discriminate E
  | _ <$> ?field = Some _ =>
      destruct field; simpl in E;
      [injection E as <-; intros; reflexivity | discriminate E]
  end.

Ltac frame_items := repeat (constructor; [frame_item|]); constructor.

Lemma update_category_store category_id category username db :
  (update_category category_id category username db).2 = db
  ∨ ∃ _id d,
      categories db !! _id = Some d
      ∧ (update_category category_id category username db).2
        = Store.Build
            (<[_id := CategoryDoc.set (not_None (CategoryUpdate.items category)) d]>
               (categories db))
            (products db).
Proof.
  unfold update_category.
  destruct (not_None (CategoryUpdate.items category)) as [|a update] eqn:E;
    [left; reflexivity|].
  run. destruct (bson.ObjectId category_id) as [_id|e]; [|left; reflexivity].
  destruct (categories db !! _id) as [d|] eqn:Hd; simpl; [|left; reflexivity].
  right. exists _id, d. split; [assumption | reflexivity].
Qed.

Lemma get_category_id_items product :
  ProductDoc.get_category_id (not_None (ProductUpdate.items product))
  = ProductUpdate.category_id product.
Proof.
  destruct product as [c n1 n2 d1 d2 p i s a].
  destruct c; [reflexivity|].
  destruct n1, n2, d1, d2, p, i, s, a; reflexivity.
Qed.

Lemma update_product_store product_id product username db :
  (update_product product_id product username db).2 = db
  ∨ ∃ _id d,
      products db !! _id = Some d
      ∧ (∀ c, ProductUpdate.category_id product = Some c → resolves db c)
      ∧ (update_product product_id product username db).2
        = Store.Build (categories db)
            (<[_id := ProductDoc.set (not_None (ProductUpdate.items product)) d]>
               (products db)).
Proof.
  unfold update_product.
  pose proof (get_category_id_items product) as Hget.
  destruct (not_None (ProductUpdate.items product)) as [|a update] eqn:E;
    [left; reflexivity|].
  destruct (ProductDoc.get_category_id (a :: update)) as [c|] eqn:Hc; run.
  - destruct (bson.ObjectId c) as [cid|e] eqn:Hcid; [|left; reflexivity]. simpl.
    destruct (categories db !! cid) eqn:Hcat; simpl; [|left; reflexivity].
    destruct (bson.ObjectId product_id) as [_id|e]; [|left; reflexivity].
    destruct (products db !! _id) as [d|] eqn:Hd; simpl; [|left; reflexivity].
    right. exists _id, d. split; [assumption|]. split; [|reflexivity].
    intros c' Hc'. assert (c' = c) as -> by congruence.
    exists cid. rewrite Hcat. eauto.
  - destruct (bson.ObjectId product_id) as [_id|e]; [|left; reflexivity].
    destruct (products db !! _id) as [d|] eqn:Hd; simpl; [|left; reflexivity].
    right. exists _id, d. split; [assumption|]. split; [|reflexivity].
    intros c' Hc'. congruence.
Qed.

Lemma ProductDoc_assign_keeps_texts a d :
  (is_Some (ProductDoc.description_tr d)
   → is_Some (ProductDoc.description_tr (ProductDoc.assign d a)))
  ∧ (is_Some (ProductDoc.description_en d)
     → is_Some (ProductDoc.description_en (ProductDoc.assign d a)))
  ∧ (is_Some (ProductDoc.image_url d)
     → is_Some (ProductDoc.image_url (ProductDoc.assign d a))).
Proof. destruct a; simpl; repeat split; eauto. Qed.

(** C10. In [update_category] and in [update_product] the entries of the
    payload whose value is [None] are left out of the [$set] document.
    Whatever the call answers, every stored document is still stored after
    it, the other collection is untouched, and each field for which the
    payload has [None] has the value it had before, as has [created_at];
    so a [description_tr], [description_en] or [image_url] that holds a
    text before an update holds a text after it. *)
Theorem null_fields_are_kept :
  (∀ category_id category username db _id d,
     categories db !! _id = Some d →
     let db' := (update_category category_id category username db).2 in
     products db' = products db
     ∧ ∃ d', categories db' !! _id = Some d'
         ∧ kept (CategoryUpdate.name_tr category)
             (CategoryDoc.name_tr d) (CategoryDoc.name_tr d')
         ∧ kept (CategoryUpdate.name_en category)
             (CategoryDoc.name_en d) (CategoryDoc.name_en d')
         ∧ kept (CategoryUpdate.sort_order category)
             (CategoryDoc.sort_order d) (CategoryDoc.sort_order d')
         ∧ kept (CategoryUpdate.is_active category)
             (CategoryDoc.is_active d) (CategoryDoc.is_active d')
         ∧ CategoryDoc.created_at d' = CategoryDoc.created_at d)
  ∧ (∀ product_id product username db _id d,
     products db !! _id = Some d →
     let db' := (update_product product_id product username db).2 in
     categories db' = categories db
     ∧ ∃ d', products db' !! _id = Some d'
         ∧ kept (ProductUpdate.category_id product)
             (ProductDoc.category_id d) (ProductDoc.category_id d')
         ∧ kept (ProductUpdate.name_tr product)
             (ProductDoc.name_tr d) (ProductDoc.name_tr d')
         ∧ kept (ProductUpdate.name_en product)
             (ProductDoc.name_en d) (ProductDoc.name_en d')
         ∧ kept (ProductUpdate.description_tr product)
             (ProductDoc.description_tr d) (ProductDoc.description_tr d')
         ∧ kept (ProductUpdate.description_en product)
             (ProductDoc.description_en d) (ProductDoc.description_en d')
         ∧ kept (ProductUpdate.price product)
             (ProductDoc.price d) (ProductDoc.price d')
         ∧ kept (ProductUpdate.image_url product)
             (ProductDoc.image_url d) (ProductDoc.image_url d')
         ∧ kept (ProductUpdate.sort_order product)
             (ProductDoc.sort_order d) (ProductDoc.sort_order d')
         ∧ kept (ProductUpdate.is_active product)
             (ProductDoc.is_active d) (ProductDoc.is_active d')
         ∧ ProductDoc.created_at d' = ProductDoc.created_at d
         ∧ (is_Some (ProductDoc.description_tr d)
            → is_Some (ProductDoc.description_tr d'))
         ∧ (is_Some (ProductDoc.description_en d)
            → is_Some (ProductDoc.description_en d'))
         ∧ (is_Some (ProductDoc.image_url d)
            → is_Some (ProductDoc.image_url d'))).
Proof.
  split.
  - intros category_id category username db _id d Hd db'. subst db'.
    destruct (update_category_store category_id category username db)
      as [-> | (i & d0 & Hd0 & ->)].
    { split; [reflexivity|]. exists d. unfold kept. tauto. }
    cbn [categories products]. split; [reflexivity|].
    destruct (decide (i = _id)) as [->|Hne].
    + rewrite lookup_insert_eq. eexists. split; [reflexivity|].
      assert (d0 = d) as -> by congruence.
      unfold kept.
      repeat split; try intros Hnone;
        apply CategoryDoc_set_keeps, Forall_not_None;
        unfold CategoryUpdate.items; try rewrite Hnone; frame_items.
    + rewrite lookup_insert_ne by assumption.
      exists d. unfold kept. tauto.
  - intros product_id product username db _id d Hd db'. subst db'.
    destruct (update_product_store product_id product username db)
      as [-> | (i & d0 & Hd0 & _ & ->)].
    { split; [reflexivity|]. exists d. unfold kept. tauto. }
    cbn [categories products]. split; [reflexivity|].
    destruct (decide (i = _id)) as [->|Hne].
    + rewrite lookup_insert_eq. eexists. split; [reflexivity|].
      assert (d0 = d) as -> by congruence.
      unfold kept.
      repeat (split; [try intros Hnone;
        apply ProductDoc_set_keeps, Forall_not_None;
        unfold ProductUpdate.items; try rewrite Hnone; frame_items|]).
      repeat split; apply ProductDoc_set_is_Some; intros a d';
        apply (ProductDoc_assign_keeps_texts a d').
    + rewrite lookup_insert_ne by assumption.
      exists d. unfold kept. tauto.
Qed.

Lemma null_fields_are_kept_witness :
  let category := CategoryUpdate.Build None None (Some 7) None in
  let product :=
    ProductUpdate.Build None (Some "Coca-Cola") None None None None None None None in
  (∃ d',
     categories
       (update_category "507f1f77bcf86cd799439011" category "admin" Sample.menu).2
       !! Sample.drinks_id = Some d'
     ∧ CategoryDoc.name_en d' = "Drinks")
  ∧ (∃ d',
       products
         (update_product "507f1f77bcf86cd799439012" product "admin" Sample.menu).2
         !! Sample.cola_id = Some d'
       ∧ ProductDoc.name_en d' = "Cola").
Proof.
  intros category product.
  destruct null_fields_are_kept as [Hcategory Hproduct].
  split.
  - destruct (Hcategory "507f1f77bcf86cd799439011" category "admin" Sample.menu
                Sample.drinks_id (CategoryCreate.dict Sample.drinks 0))
      as (_ & d' & Hd' & _ & Hen & _); [vm_compute; reflexivity|].
    exists d'. split; [exact Hd' | exact (Hen eq_refl)].
  - destruct (Hproduct "507f1f77bcf86cd799439012" product "admin" Sample.menu
                Sample.cola_id (ProductCreate.dict Sample.cola 0))
      as (_ & d' & Hd' & _ & _ & Hen & _); [vm_compute; reflexivity|].
    exists d'. split; [exact Hd' | exact (Hen eq_refl)].
Defined.

Section Listing.
Context {D : Type} (c : Collection D) (key : D → Z).

#[local] Instance ascending_total : Total (ascending key).
Proof. intros a b. unfold ascending. lia. Qed.

#[local] Instance ascending_trans : Transitive (ascending key).
Proof. intros a b d. unfold ascending. lia. Qed.

Lemma StronglySorted_take {A} (R : relation A) n l :
  StronglySorted R l → StronglySorted R (take n l).
Proof.
  intros H. revert n. induction H as [|x l Hl IH Hx]; intros [|n]; simpl;
    constructor; [apply IH | apply Forall_take, Hx].
Qed.

Lemma find_sort_to_list_spec query n db :
  ∃ l, find_sort_to_list c query key n db = (Return l, db)
    ∧ StronglySorted (ascending key) l
    ∧ l ⊆+ find c query db
    ∧ length l = (n `min` length (find c query db))%nat
    ∧ ((length (find c query db) ≤ n)%nat → l ≡ₚ find c query db).
Proof.
  unfold find_sort_to_list. eexists. split; [reflexivity|].
  split; [apply StronglySorted_take, StronglySorted_merge_sort; apply _|].
  split; [|split].
  - rewrite <- (merge_sort_Permutation (ascending key) (find c query db)) at 2.
    apply sublist_submseteq, sublist_take.
  - rewrite length_take. f_equal. apply Permutation_length, merge_sort_Permutation.
  - intros Hn. rewrite take_ge.
    + apply merge_sort_Permutation.
    + erewrite Permutation_length; [exact Hn|]. apply merge_sort_Permutation.
Qed.
End Listing.

Lemma Sorted_serialized {D} (key : D → Z) (l : list (ObjectId * D)) :
  StronglySorted (ascending key) l →
  Sorted Z.le (key ∘ Serialized.fields <$> (serialize <$> l)).
Proof.
  intros H. apply StronglySorted_Sorted in H.
  rewrite <- list_fmap_compose.
  apply Sorted_fmap with (R1 := ascending key); [|exact H].
  intros a b Hab. exact Hab.
Qed.

Lemma listing_spec {D} (c : Collection D) (key : D → Z) query query' n db :
  (∀ d, query d = query' d) →
  let stored := List.filter (λ doc, query' doc.2) (map_to_list (read c db)) in
  ∃ r, (docs ← find_sort_to_list c query key n; mret (serialize <$> docs)) db
       = (Return r, db)
    ∧ Sorted Z.le (key ∘ Serialized.fields <$> r)
    ∧ r ⊆+ serialize <$> stored
    ∧ length r = (n `min` length stored)%nat
    ∧ ((length stored ≤ n)%nat → r ≡ₚ serialize <$> stored).
Proof.
  intros Hquery stored.
  assert (Hstored : find c query db = stored).
  { unfold find, stored. apply filter_ext. intros doc. apply Hquery. }
  destruct (find_sort_to_list_spec c key query n db)
    as (l & Hl & Hsorted & Hsub & Hlen & Hall).
  rewrite Hstored in Hsub, Hlen, Hall.
  exists (serialize <$> l). split; [|split; [|split; [|split]]].
  - unfold mbind, M_bind. rewrite Hl. reflexivity.
  - apply Sorted_serialized, Hsorted.
  - rewrite Hsub. reflexivity.
  - rewrite length_fmap. exact Hlen.
  - intros Hn. rewrite (Hall Hn). reflexivity.
Qed.




(** *** Referential integrity *)

Lemma create_category_store category username utcnow new_id db :
  (create_category category username utcnow new_id db).2 = db
  ∨ (create_category category username utcnow new_id db).2
    = Store.Build (<[new_id := CategoryCreate.dict category utcnow]> (categories db))
        (products db).
Proof.
  unfold create_category. run.
  destruct (categories db !! new_id); [left|right]; reflexivity.
Qed.

Lemma create_product_store product username utcnow new_id db :
  (create_product product username utcnow new_id db).2 = db
  ∨ resolves db (ProductCreate.category_id product)
    ∧ (create_product product username utcnow new_id db).2
      = Store.Build (categories db)
          (<[new_id := ProductCreate.dict product utcnow]> (products db)).
Proof.
  unfold create_product. run.
  destruct (bson.ObjectId (ProductCreate.category_id product)) as [cid|e] eqn:Hcid;
    [|left; reflexivity].
  destruct (categories db !! cid) eqn:Hcat; simpl; [|left; reflexivity].
  destruct (products db !! new_id); [left; reflexivity|].
  right. split; [|reflexivity]. exists cid. rewrite Hcat. eauto.
Qed.

Lemma delete_product_store product_id username db :
  (delete_product product_id username db).2 = db
  ∨ ∃ _id,
      (delete_product product_id username db).2
      = Store.Build (categories db) (delete _id (products db)).
Proof.
  unfold delete_product. run.
  destruct (bson.ObjectId product_id) as [_id|e]; [|left; reflexivity].
  destruct (products db !! _id); [|left; reflexivity].
  right. exists _id. reflexivity.
Qed.

Lemma delete_category_store category_id username db :
  (delete_category category_id username db).2 = db
  ∨ ∃ _id,
      bson.ObjectId category_id = Return _id
      ∧ (∀ i p, products db !! i = Some p → ProductDoc.category_id p ≠ category_id)
      ∧ (delete_category category_id username db).2
        = Store.Build (delete _id (categories db)) (products db).
Proof.
  unfold delete_category. run.
  destruct (find products_collection
              (ProductDoc.matches [ProductDoc.category_id_eq category_id]) db)
    as [|doc docs] eqn:Hfind; simpl; [|left; reflexivity].
  destruct (bson.ObjectId category_id) as [_id|e]; [|left; reflexivity].
  destruct (categories db !! _id); [|left; reflexivity].
  right. exists _id. split; [reflexivity|]. split; [|reflexivity].
  intros i p Hp Heq.
  assert (Hel : (i, p) ∈ find products_collection
                  (ProductDoc.matches [ProductDoc.category_id_eq category_id]) db).
  { apply elem_of_find. split; [exact Hp | apply matches_category_id, Heq]. }
  rewrite Hfind in Hel. inversion Hel.
Qed.

Lemma category_id_set product d :
  ProductDoc.category_id (ProductDoc.set (not_None (ProductUpdate.items product)) d)
  = default (ProductDoc.category_id d) (ProductUpdate.category_id product).
Proof.
  destruct (ProductUpdate.category_id product) as [c|] eqn:Hc.
  - unfold ProductUpdate.items, not_None. rewrite Hc. simpl.
    unfold ProductDoc.set. simpl.
    change (ProductDoc.category_id
              (ProductDoc.set
                 (not_None
                    [ProductDoc.set_name_tr <$> ProductUpdate.name_tr product;
                     ProductDoc.set_name_en <$> ProductUpdate.name_en product;
                     ProductDoc.set_description_tr
                       <$> ProductUpdate.description_tr product;
                     ProductDoc.set_description_en
                       <$> ProductUpdate.description_en product;
                     ProductDoc.set_price <$> ProductUpdate.price product;
                     ProductDoc.set_image_url <$> ProductUpdate.image_url product;
                     ProductDoc.set_sort_order <$> ProductUpdate.sort_order product;
                     ProductDoc.set_is_active <$> ProductUpdate.is_active product])
                 (ProductDoc.assign d (ProductDoc.set_category_id c)))
            = c).
    rewrite ProductDoc_set_keeps; [reflexivity|].
    apply Forall_not_None. frame_items.
  - change (default (ProductDoc.category_id d) None) with (ProductDoc.category_id d).
    apply ProductDoc_set_keeps, Forall_not_None.
    unfold ProductUpdate.items. rewrite Hc. frame_items.
Qed.

Lemma resolves_mono db db' s :
  (∀ i, is_Some (categories db !! i) → is_Some (categories db' !! i)) →
  resolves db s → resolves db' s.
Proof. intros Hsub (_id & Hid & Hsome). exists _id. auto. Qed.

(** Every handler but [delete_category] keeps every stored [category_id]
    resolving; [delete_category] keeps it when no stored [category_id]
    spells the id of the deleted category differently from the request. *)
Lemma handle_keeps_integrity username db r :
  referential_integrity db →
  (∀ category_id, r = DELETE_category category_id →
     ∀ i p, products db !! i = Some p →
       bson.ObjectId (ProductDoc.category_id p) = bson.ObjectId category_id →
       ProductDoc.category_id p = category_id) →
  referential_integrity (handle username db r).
Proof.
  intros Hint Hspell. destruct r as [c t n|cid c|cid|p t n|pid p|pid]; simpl.
  - destruct (create_category_store c username t n db) as [->| ->]; [assumption|].
    intros i p Hp. apply (resolves_mono db); [|exact (Hint i p Hp)].
    intros j Hj. cbn [categories].
    destruct (decide (n = j)) as [->|Hne];
      [rewrite lookup_insert_eq; eauto | rewrite lookup_insert_ne; auto].
  - destruct (update_category_store cid c username db)
      as [->|(j & d & Hd & ->)]; [assumption|].
    intros i p Hp. apply (resolves_mono db); [|exact (Hint i p Hp)].
    intros k Hk. cbn [categories].
    destruct (decide (j = k)) as [->|Hne];
      [rewrite lookup_insert_eq; eauto | rewrite lookup_insert_ne; auto].
  - destruct (delete_category_store cid username db)
      as [->|(j & Hj & Hnone & ->)]; [assumption|].
    intros i p Hp. cbn [products] in Hp.
    destruct (Hint i p Hp) as (k & Hk & Hsome).
    exists k. split; [assumption|]. cbn [categories].
    rewrite lookup_delete_ne; [assumption|].
    intros <-. apply (Hnone i p Hp).
    apply (Hspell cid eq_refl i p Hp). congruence.
  - destruct (create_product_store p username t n db) as [->|[Hres ->]];
      [assumption|].
    intros i q Hq. cbn [products] in Hq.
    apply (resolves_mono db); [auto|].
    destruct (decide (n = i)) as [->|Hne].
    + rewrite lookup_insert_eq in Hq. injection Hq as <-. exact Hres.
    + rewrite lookup_insert_ne in Hq by assumption. exact (Hint i q Hq).
  - destruct (update_product_store pid p username db)
      as [->|(j & d & Hd & Hres & ->)]; [assumption|].
    intros i q Hq. cbn [products] in Hq.
    apply (resolves_mono db); [auto|].
    destruct (decide (j = i)) as [->|Hne].
    + rewrite lookup_insert_eq in Hq.
      assert (ProductDoc.set (not_None (ProductUpdate.items p)) d = q) as <-
        by congruence.
      rewrite category_id_set.
      destruct (ProductUpdate.category_id p) as [c|] eqn:Hc; simpl;
        [exact (Hres c eq_refl) | exact (Hint i d Hd)].
    + rewrite lookup_insert_ne in Hq by assumption. exact (Hint i q Hq).
  - destruct (delete_product_store pid username db) as [->|(j & ->)];
      [assumption|].
    intros i q Hq. cbn [products] in Hq.
    apply (resolves_mono db); [auto|].
    apply lookup_delete_Some in Hq as [_ Hq]. exact (Hint i q Hq).
Qed.

(** The example of the specification: with the id as the server printed
    it, the category cannot be deleted while the product is there, and can
    be once the product is deleted. *)
Example delete_product_then_category :
  (delete_category "507f1f77bcf86cd799439011" "admin" Sample.menu).1
  = Raise (HTTPException 400 "Cannot delete category with products")
  ∧ (_ ← delete_product "507f1f77bcf86cd799439012" "admin";
     delete_category "507f1f77bcf86cd799439011" "admin") Sample.menu
    = (Return "Category deleted successfully", Store.initial).
Proof. split; vm_compute; reflexivity. Qed.

Lemma canonical_same_spelling s1 s2 :
  canonical s1 → canonical s2 → bson.ObjectId s1 = bson.ObjectId s2 → s1 = s2.
Proof.
  intros H1 H2 Heq. destruct (bson.ObjectId s2) as [_id|e] eqn:E2.
  - rewrite <- (H1 _id Heq). apply H2. exact E2.
  - pose proof (ObjectId_Raise _ _ Heq). pose proof (ObjectId_Raise _ _ E2).
    congruence.
Qed.

Lemma handle_keeps_canonical username db r :
  canonical_request r → canonical_store db → canonical_store (handle username db r).
Proof.
  intros Hr Hdb. destruct r as [c t n|cid c|cid|p t n|pid p|pid]; simpl in *.
  - destruct (create_category_store c username t n db) as [->| ->]; assumption.
  - destruct (update_category_store cid c username db)
      as [->|(j & d & Hd & ->)]; assumption.
  - destruct (delete_category_store cid username db)
      as [->|(j & Hj & Hnone & ->)]; assumption.
  - destruct (create_product_store p username t n db) as [->|[Hres ->]];
      [assumption|].
    intros i q Hq. cbn [products] in Hq.
    destruct (decide (n = i)) as [->|Hne].
    + rewrite lookup_insert_eq in Hq.
      assert (ProductCreate.dict p t = q) as <- by congruence. exact Hr.
    + rewrite lookup_insert_ne in Hq by assumption. exact (Hdb i q Hq).
  - destruct (update_product_store pid p username db)
      as [->|(j & d & Hd & Hres & ->)]; [assumption|].
    intros i q Hq. cbn [products] in Hq.
    destruct (decide (j = i)) as [->|Hne].
    + rewrite lookup_insert_eq in Hq.
      assert (ProductDoc.set (not_None (ProductUpdate.items p)) d = q) as <-
        by congruence.
      rewrite category_id_set.
      destruct (ProductUpdate.category_id p) as [c|] eqn:Hc;
        [exact (Hr c eq_refl) | exact (Hdb i d Hd)].
    + rewrite lookup_insert_ne in Hq by assumption. exact (Hdb i q Hq).
  - destruct (delete_product_store pid username db) as [->|(j & ->)];
      [assumption|].
    intros i q Hq. cbn [products] in Hq.
    apply lookup_delete_Some in Hq as [_ Hq]. exact (Hdb i q Hq).
Qed.

(** Along requests that spell every category id the way the server prints
    it, every stored [category_id] keeps resolving. *)
Lemma serve_keeps_integrity username requests db :
  Forall canonical_request requests →
  canonical_store db → referential_integrity db →
  referential_integrity (serve username requests db).
Proof.
  unfold serve. intros H. revert db.
  induction H as [|r requests Hr _ IH]; intros db Hcan Hint; simpl;
    [assumption|].
  apply IH.
  - apply handle_keeps_canonical; assumption.
  - apply handle_keeps_integrity; [assumption|].
    intros cid -> i p Hp. apply canonical_same_spelling; [exact (Hcan i p Hp)|].
    exact Hr.
Qed.

Lemma canonical_drinks_id : canonical "507f1f77bcf86cd799439011".
Proof. intros _id H. vm_compute in H. injection H as <-. reflexivity. Qed.

(** C1, on the code. After a category and a product of it are created, the
    stored [category_id] resolves. [delete_category], given the id of the
    category in upper case, finds no product whose [category_id] is that
    string, deletes the category the string denotes, and the product is
    left with a [category_id] that no longer resolves. *)
Theorem respelled_delete_orphans_product :
  let respelled := "507F1F77BCF86CD799439011" in
  let after := (delete_category respelled "admin" Sample.menu).2 in
  referential_integrity Sample.menu
  ∧ (delete_category respelled "admin" Sample.menu).1
    = Return "Category deleted successfully"
  ∧ after
    = serve "admin"
        [POST_category Sample.drinks 0 Sample.drinks_id;
         POST_product Sample.cola 0 Sample.cola_id;
         DELETE_category respelled] Store.initial
  ∧ products after !! Sample.cola_id = Some (ProductCreate.dict Sample.cola 0)
  ∧ ¬ resolves after (ProductCreate.category_id Sample.cola)
  ∧ ¬ referential_integrity after.
Proof.
  intros respelled after.
  assert (Hcola : products after !! Sample.cola_id
                  = Some (ProductCreate.dict Sample.cola 0))
    by (vm_compute; reflexivity).
  assert (Hno : ¬ resolves after (ProductCreate.category_id Sample.cola)).
  { intros (_id & Hid & Hsome). vm_compute in Hid. injection Hid as <-.
    vm_compute in Hsome. destruct Hsome as [? ?]. discriminate. }
  split; [|split; [|split; [|split; [|split]]]].
  - unfold Sample.menu. apply serve_keeps_integrity.
    + repeat constructor. exact canonical_drinks_id.
    + intros i p Hp. exfalso. exact (lookup_empty_Some _ _ Hp).
    + intros i p Hp. exfalso. exact (lookup_empty_Some _ _ Hp).
  - vm_compute. reflexivity.
  - reflexivity.
  - exact Hcola.
  - exact Hno.
  - intros Hint. apply Hno. exact (Hint _ _ Hcola).
Qed.

(** * Further properties *)

(** *** Ids as the server prints them *)

Lemma hexlify_byte (b : byte) :
  let n := Byte.to_N b in
  bson.is_space (bson.hex_char (n / 16)) = false
  ∧ bson.hex_value (bson.hex_char (n / 16)) = Some (n / 16)%N
  ∧ bson.hex_value (bson.hex_char (n mod 16)) = Some (n mod 16)%N
  ∧ bson.byte_of_nibbles (n / 16) (n mod 16) = b.
Proof. destruct b; repeat split; reflexivity. Qed.

Lemma fromhex_hexlify (o : list byte) : bson.fromhex (bson.hexlify o) = Some o.
Proof.
  induction o as [|b o IH]; [reflexivity|].
  destruct (hexlify_byte b) as (Hspace & Hhi & Hlo & Hb).
  cbn [bson.hexlify bson.fromhex]. cbv zeta in *.
  rewrite Hspace, Hhi, Hlo, IH, Hb. reflexivity.
Qed.

Lemma length_hexlify (o : list byte) :
  String.length (bson.hexlify o) = (2 * length o)%nat.
Proof. induction o as [|b o IH]; simpl; [reflexivity | rewrite IH; lia]. Qed.

(** The text [str] prints for a twelve-byte id is read back by [ObjectId]
    as that id. *)
Lemma ObjectId_str (o : list byte) :
  length o = 12%nat → bson.ObjectId (bson.str o) = Return o.
Proof.
  intros Hlen. unfold bson.ObjectId, bson.str.
  rewrite length_hexlify, Hlen, fromhex_hexlify. reflexivity.
Qed.

Lemma spells_str (o : list byte) : length o = 12%nat → spells (bson.str o) o.
Proof. intros Hlen. split; [apply ObjectId_str, Hlen | exact Hlen]. Qed.

Lemma canonical_str (o : list byte) : length o = 12%nat → canonical (bson.str o).
Proof.
  intros Hlen _id H. rewrite (ObjectId_str o Hlen) in H. congruence.
Qed.

(** *** Create, then get *)

Lemma get_category_stored s _id d db :
  bson.ObjectId s = Return _id → categories db !! _id = Some d →
  get_category s db = (Return (Some (serialize (_id, d))), db).
Proof. intros Hid Hd. unfold get_category. run. rewrite Hid, Hd. reflexivity. Qed.

Lemma get_product_stored s _id d db :
  bson.ObjectId s = Return _id → products db !! _id = Some d →
  get_product s db = (Return (Some (serialize (_id, d))), db).
Proof. intros Hid Hd. unfold get_product. run. rewrite Hid, Hd. reflexivity. Qed.





(** *** Updates that go through *)

Lemma CategoryDoc_set_items category d :
  CategoryDoc.set (not_None (CategoryUpdate.items category)) d
  = merge_category category d.
Proof.
  destruct d. destruct category as [[?|] [?|] [?|] [?|]]; reflexivity.
Qed.

Lemma ProductDoc_set_items product d :
  ProductDoc.set (not_None (ProductUpdate.items product)) d
  = merge_product product d.
Proof.
  destruct d.
  destruct product as [[?|] [?|] [?|] [?|] [?|] [?|] [?|] [?|] [?|]];
    reflexivity.
Qed.

Lemma CategoryUpdate_supplied category :
  category ≠ CategoryUpdate.Build None None None None →
  not_None (CategoryUpdate.items category) ≠ [].
Proof.
  destruct category as [[?|] [?|] [?|] [?|]]; intros H; try discriminate.
  contradiction.
Qed.

Lemma ProductUpdate_supplied product :
  product ≠ ProductUpdate.Build None None None None None None None None None →
  not_None (ProductUpdate.items product) ≠ [].
Proof.
  destruct product as [[?|] [?|] [?|] [?|] [?|] [?|] [?|] [?|] [?|]];
    intros H; try discriminate.
  contradiction.
Qed.







(** *** Product delete *)

(** X6. [delete_product] never looks at references. For the text of the id
    of a stored product it succeeds and removes that product and nothing
    else; after it a [get_product] and a second [delete_product] by the
    same id raise HTTP 404 "Product not found". For the text of an id under
    which no product is stored it raises that 404, and for a string that is
    not the text of an ObjectId it raises [InvalidId]; the store is as
    before in both cases. *)
Theorem delete_product_outcomes product_id username db :
  (∀ _id p, spells product_id _id → products db !! _id = Some p →
     let db' := Store.Build (categories db) (delete _id (products db)) in
     delete_product product_id username db
     = (Return "Product deleted successfully", db')
     ∧ get_product product_id db'
       = (Raise (HTTPException 404 "Product not found"), db')
     ∧ delete_product product_id username db'
       = (Raise (HTTPException 404 "Product not found"), db'))
  ∧ (∀ _id, spells product_id _id → products db !! _id = None →
       delete_product product_id username db
       = (Raise (HTTPException 404 "Product not found"), db))
  ∧ (∀ e, bson.ObjectId product_id = Raise e →
       delete_product product_id username db = (Raise (InvalidId product_id), db)).
Proof.
  unfold delete_product, get_product. run. split; [|split].
  - intros _id p [Hid _] Hp. rewrite Hid, Hp. simpl.
    rewrite lookup_delete_eq. repeat split.
  - intros _id [Hid _] Hnone. rewrite Hid, Hnone. reflexivity.
  - intros e He. pose proof (ObjectId_Raise _ _ He) as ->. rewrite He.
    reflexivity.
Qed.

Lemma delete_product_outcomes_witness :
  delete_product "507f1f77bcf86cd799439012" "admin" Sample.menu
  = (Return "Product deleted successfully", Sample.only_drinks)
  ∧ delete_product "507f1f77bcf86cd799439012" "admin" Sample.only_drinks
    = (Raise (HTTPException 404 "Product not found"), Sample.only_drinks)
  ∧ delete_product "cola" "admin" Sample.menu = (Raise (InvalidId "cola"), Sample.menu).
Proof.
  split; [|split].
  - apply (delete_product_outcomes "507f1f77bcf86cd799439012" "admin" Sample.menu)
      with (_id := Sample.cola_id) (p := ProductCreate.dict Sample.cola 0);
      [split; reflexivity | vm_compute; reflexivity].
  - apply (delete_product_outcomes "507f1f77bcf86cd799439012" "admin"
             Sample.only_drinks) with (_id := Sample.cola_id);
      [split; reflexivity | vm_compute; reflexivity].
  - apply (delete_product_outcomes "cola" "admin" Sample.menu)
      with (e := InvalidId "cola"). reflexivity.
Defined.

(** *** Listing, then get *)

Lemma listed_is_stored {D} (c : Collection D) (key : D → Z) query n db r entity :
  (docs ← find_sort_to_list c query key n; mret (serialize <$> docs)) db
  = (Return r, db) →
  entity ∈ r →
  ∃ _id d, read c db !! _id = Some d ∧ query d = true
           ∧ entity = serialize (_id, d).
Proof.
  intros Hr Hin.
  destruct (listing_spec c key query query n db (λ d, eq_refl))
    as (r' & Hr' & _ & Hsub & _).
  assert (r' = r) as -> by congruence.
  apply (elem_of_submseteq _ _ _ Hin) in Hsub.
  apply list_elem_of_fmap in Hsub as ([_id d] & -> & Hdoc).
  apply list_elem_of_In, filter_In in Hdoc as [Hdoc Hq].
  apply list_elem_of_In, elem_of_map_to_list in Hdoc.
  exists _id, d. auto.
Qed.

(** X7. When the stored ids have twelve bytes, as the ids the driver
    generates have, every entity [get_categories] lists is what
    [get_category] answers for its ["id"], and every entity [get_products]
    lists is what [get_product] answers for its ["id"]. *)
Theorem listed_entities_can_be_fetched (db : DB) (active_only : bool)
    (category_id : option string) :
  (∀ _id d, categories db !! _id = Some d → length _id = 12%nat) →
  (∀ _id p, products db !! _id = Some p → length _id = 12%nat) →
  (∀ r entity,
     get_categories active_only db = (Return r, db) → entity ∈ r →
     get_category (Serialized.id entity) db = (Return (Some entity), db))
  ∧ (∀ r entity,
       get_products category_id active_only db = (Return r, db) → entity ∈ r →
       get_product (Serialized.id entity) db = (Return (Some entity), db)).
Proof.
  intros Hcats Hprods. split; intros r entity Hr Hin.
  - apply listed_is_stored with (entity := entity) in Hr as (_id & d & Hd & _ & ->);
      [|exact Hin].
    apply get_category_stored; [|exact Hd].
    apply ObjectId_str, (Hcats _id d Hd).
  - apply listed_is_stored with (entity := entity) in Hr as (_id & d & Hd & _ & ->);
      [|exact Hin].
    apply get_product_stored; [|exact Hd].
    apply ObjectId_str, (Hprods _id d Hd).
Qed.

Lemma Sample_menu_ids :
  (∀ _id d, categories Sample.menu !! _id = Some d → length _id = 12%nat)
  ∧ (∀ _id p, products Sample.menu !! _id = Some p → length _id = 12%nat).
Proof.
  split.
  - intros _id d H.
    change (categories Sample.menu)
      with (<[Sample.drinks_id := CategoryCreate.dict Sample.drinks 0]>
              (∅ : gmap (list byte) CategoryDoc.t)) in H.
    apply lookup_insert_Some in H as [[<- _]|[_ H]]; [reflexivity|].
    exfalso. exact (lookup_empty_Some _ _ H).
  - intros _id p H.
    change (products Sample.menu)
      with (<[Sample.cola_id := ProductCreate.dict Sample.cola 0]>
              (∅ : gmap (list byte) ProductDoc.t)) in H.
    apply lookup_insert_Some in H as [[<- _]|[_ H]]; [reflexivity|].
    exfalso. exact (lookup_empty_Some _ _ H).
Qed.

Lemma listed_entities_can_be_fetched_witness :
  let entity :=
    Serialized.Build "507f1f77bcf86cd799439011"
      (CategoryDoc.Build "Icecekler" "Drinks" 1 true 0) in
  get_categories true Sample.menu = (Return [entity], Sample.menu)
  ∧ get_category "507f1f77bcf86cd799439011" Sample.menu
    = (Return (Some entity), Sample.menu).
Proof.
  intros entity.
  assert (Hlist : get_categories true Sample.menu = (Return [entity], Sample.menu))
    by (vm_compute; reflexivity).
  split; [exact Hlist|].
  destruct Sample_menu_ids as [Hcats Hprods].
  destruct (listed_entities_can_be_fetched Sample.menu true None Hcats Hprods)
    as [Hfetch _].
  apply (Hfetch [entity] entity Hlist). apply list_elem_of_here.
Defined.

(** *** What [verify_token] accepts *)

Lemma decode_Return t key alg utcnow payload :
  jose.decode t key [alg] utcnow = Return payload
  ↔ t = jose.Compact alg payload (jose.HMAC key alg payload)
    ∧ jose.supported alg = true
    ∧ (∀ e, jose.exp payload = Some e → timegm utcnow ≤ e).
Proof.
  destruct t as [a p s|raw]; simpl;
    [|split; [discriminate | intros [? _]; discriminate]].
  destruct (decide (a = alg)) as [->|Hne].
  - rewrite bool_decide_eq_true_2 by apply list_elem_of_here. simpl.
    destruct (jose.supported alg) eqn:Hsup; simpl;
      [|split; [discriminate | intros (_ & ? & _); discriminate]].
    destruct (decide (s = jose.HMAC key alg p)) as [->|Hsig].
    + rewrite bool_decide_eq_true_2 by reflexivity. simpl.
      destruct (jose.exp p) as [e|] eqn:Hexp.
      * destruct (Z.ltb_spec e (timegm utcnow)) as [Hlt|Hge].
        -- split; [discriminate|].
           intros (Heq & _ & Hnot). injection Heq as <-.
           specialize (Hnot e Hexp). lia.
        -- split.
           ++ intros H. injection H as <-. repeat split.
              intros e' He'. rewrite Hexp in He'. injection He' as <-. exact Hge.
           ++ intros (Heq & _ & _). injection Heq as <-. reflexivity.
      * split.
        -- intros H. injection H as <-. repeat split.
           intros e' He'. rewrite Hexp in He'. discriminate.
        -- intros (Heq & _ & _). injection Heq as <-. reflexivity.
    + rewrite bool_decide_eq_false_2 by assumption. simpl.
      split; [discriminate|]. intros (Heq & _ & _).
      injection Heq as Hp Hs. congruence.
  - rewrite bool_decide_eq_false_2; simpl.
    + split; [discriminate|]. intros (Heq & _ & _). injection Heq as <-.
      contradiction.
    + intros Hin. apply list_elem_of_singleton in Hin. contradiction.
Qed.

Lemma decode_Raise t key algorithms utcnow e :
  jose.decode t key algorithms utcnow = Raise e → is_JWTError e = true.
Proof.
  destruct t as [a p s|raw]; simpl; [|intros H; injection H as <-; reflexivity].
  destruct (negb (bool_decide (a ∈ algorithms)));
    [intros H; injection H as <-; reflexivity|].
  destruct (negb (jose.supported a)); [intros H; injection H as <-; reflexivity|].
  destruct (negb (bool_decide _)); [intros H; injection H as <-; reflexivity|].
  destruct (jose.exp p) as [x|]; [|discriminate].
  destruct (x <? timegm utcnow); [|discriminate].
  intros H. injection H as <-. reflexivity.
Qed.



Lemma verify_token_Return_or_401 env credentials utcnow :
  (∃ username, verify_token env credentials utcnow = Return username)
  ∨ verify_token env credentials utcnow
    = Raise (HTTPException 401 "Invalid authentication credentials").
Proof.
  unfold verify_token. simpl.
  destruct (jose.decode _ _ _ _) as [payload|e] eqn:Hd; simpl.
  - destruct (jose.sub payload); [left; eauto | right; reflexivity].
  - rewrite (decode_Raise _ _ _ _ _ Hd). right. reflexivity.
Qed.

Lemma verify_token_signed env scheme payload utcnow :
  jose.supported (ALGORITHM env) = true →
  verify_token env
    (HTTPAuthorizationCredentials.Build scheme
       (jose.Compact (ALGORITHM env) payload
          (jose.HMAC (SECRET_KEY env) (ALGORITHM env) payload))) utcnow
  = match jose.exp payload with
    | Some e =>
        if e <? timegm utcnow
        then Raise (HTTPException 401 "Invalid authentication credentials")
        else match jose.sub payload with
             | Some username => Return username
             | None => Raise (HTTPException 401 "Invalid authentication credentials")
             end
    | None =>
        match jose.sub payload with
        | Some username => Return username
        | None => Raise (HTTPException 401 "Invalid authentication credentials")
        end
    end.
Proof.
  intros Hsup. unfold verify_token, jose.decode. simpl.
  rewrite Hsup. simpl.
  rewrite !bool_decide_eq_true_2 by (reflexivity || apply list_elem_of_here).
  simpl. destruct (jose.exp payload) as [e|].
  - destruct (e <? timegm utcnow); [reflexivity|].
    unfold mbind, Result_bind. simpl. destruct (jose.sub payload); reflexivity.
  - unfold mbind, Result_bind. simpl. destruct (jose.sub payload); reflexivity.
Qed.

(** *** Login, then verify *)



(** *** Protected routes *)

Lemma route_outcome env credentials utcnow r db :
  (verify_token env credentials utcnow
   = Raise (HTTPException 401 "Invalid authentication credentials")
   ∧ route env credentials utcnow r db
     = (Raise (HTTPException 401 "Invalid authentication credentials"), db))
  ∨ ∃ username,
      verify_token env credentials utcnow = Return username
      ∧ route env credentials utcnow r db = endpoint r username db.
Proof.
  unfold route, Depends_verify_token. run.
  destruct (verify_token_Return_or_401 env credentials utcnow) as [[u Hu]|H401].
  - right. exists u. rewrite Hu. auto.
  - left. rewrite H401. auto.
Qed.

Lemma endpoint_store r username db : (endpoint r username db).2 = handle username db r.
Proof.
  destruct r; simpl; unfold mbind, M_bind;
    match goal with
    | |- context [match ?call with (_, _) => _ end] => destruct call as [[?|?] ?]
    end; reflexivity.
Qed.



(** *** Referential integrity along requests *)

Lemma route_store env credentials utcnow r db :
  (route env credentials utcnow r db).2 = db
  ∨ ∃ username, (route env credentials utcnow r db).2 = handle username db r.
Proof.
  destruct (route_outcome env credentials utcnow r db)
    as [[_ H]|(u & _ & H)]; rewrite H; [left; reflexivity|].
  right. exists u. apply endpoint_store.
Qed.

(** X11. Along any sequence of arriving create, update and delete
    requests, whatever their tokens, in which every [category_id] of a
    product payload and every id of a category delete is spelled the way
    the server prints ids, every stored product keeps a [category_id] that
    resolves and that is spelled that way. *)
Theorem integrity_along_canonical_requests env arrivals db :
  Forall (λ a : HTTPAuthorizationCredentials.t * datetime * request,
            canonical_request a.2) arrivals →
  canonical_store db →
  referential_integrity db →
  referential_integrity (serve_routes env arrivals db)
  ∧ canonical_store (serve_routes env arrivals db).
Proof.
  unfold serve_routes. intros H. revert db.
  induction H as [|a arrivals Ha _ IH]; intros db Hcan Hint; simpl; [auto|].
  destruct (route_store env a.1.1 a.1.2 a.2 db) as [->|[u ->]]; [auto|].
  apply IH.
  - apply handle_keeps_canonical; assumption.
  - apply handle_keeps_integrity; [assumption|].
    intros cid Hr i p Hp. rewrite Hr in Ha.
    apply canonical_same_spelling; [exact (Hcan i p Hp) | exact Ha].
Qed.

Lemma integrity_along_canonical_requests_witness :
  referential_integrity
    (serve_routes defaults
       [(Sample.bearer, 0, POST_category Sample.drinks 0 Sample.drinks_id);
        (Sample.bearer, 1000000, POST_product Sample.cola 1000000 Sample.cola_id);
        (Sample.forged, 2000000, DELETE_product "507f1f77bcf86cd799439012");
        (Sample.bearer, 3000000, DELETE_category "507f1f77bcf86cd799439011")]
       Store.initial).
Proof.
  apply integrity_along_canonical_requests.
  - repeat constructor; exact canonical_drinks_id.
  - intros i p Hp. exfalso. exact (lookup_empty_Some _ _ Hp).
  - intros i p Hp. exfalso. exact (lookup_empty_Some _ _ Hp).
Defined.

(** X12. From any store in which every [category_id] resolves, a category
    create or update and a product create, update or delete leave a store
    in which every [category_id] resolves, however the ids of the request
    are spelled: of the six mutating handlers only [delete_category] can
    leave a product without its category. *)
Theorem only_category_delete_can_orphan username db r :
  referential_integrity db →
  (∀ category_id, r ≠ DELETE_category category_id) →
  referential_integrity (handle username db r).
Proof.
  intros Hint Hr. apply handle_keeps_integrity; [exact Hint|].
  intros cid ->. exfalso. exact (Hr cid eq_refl).
Qed.

Lemma only_category_delete_can_orphan_witness :
  referential_integrity
    (handle "admin" Sample.menu
       (PUT_product "507F1F77BCF86CD799439012"
          (ProductUpdate.Build (Some "507F1F77BCF86CD799439011") None None None
             None None None None None))).
Proof.
  apply only_category_delete_can_orphan.
  - unfold Sample.menu. apply serve_keeps_integrity.
    + repeat constructor. exact canonical_drinks_id.
    + intros i p Hp. exfalso. exact (lookup_empty_Some _ _ Hp).
    + intros i p Hp. exfalso. exact (lookup_empty_Some _ _ Hp).
  - intros cid H. discriminate.
Defined.

(** *** Uploads *)

Lemma last_cons {A} (x : A) (l : list A) (d : A) :
  List.last (x :: l) d = List.last l x.
Proof.
  revert x d. induction l as [|y l IH]; intros x d; [reflexivity|].
  change (List.last (y :: l) d = List.last (y :: l) x).
  rewrite (IH y d), (IH y x). reflexivity.
Qed.

Lemma last_default {A} (l : list A) (d d' : A) :
  l ≠ [] → List.last l d = List.last l d'.
Proof.
  destruct l as [|x l]; [contradiction|]. intros _. rewrite !last_cons.
  reflexivity.
Qed.

Lemma split_cons (sep c : ascii) (rest : string) :
  split sep (String c rest)
  = if Ascii.eqb c sep
    then (EmptyString, (split sep rest).1 :: (split sep rest).2)
    else (String c (split sep rest).1, (split sep rest).2).
Proof. simpl. destruct (split sep rest). reflexivity. Qed.

(** What [split] gives: without the separator in the text, the text as
    the only piece; otherwise more pieces, and the text ends with the
    separator and the last piece. *)
Lemma split_spec (sep : ascii) (s : string) :
  ((split sep s).2 = [] ∧ (split sep s).1 = s)
  ∨ ((split sep s).2 ≠ []
     ∧ ∃ stem, s = (stem ++ String sep (last_piece (split sep s)))%string).
Proof.
  unfold last_piece. induction s as [|c rest IH]; [left; auto|].
  rewrite split_cons.
  destruct (Ascii.eqb_spec c sep) as [->|Hne]; cbn [fst snd].
  - right. split; [discriminate|]. rewrite last_cons.
    destruct IH as [[Hnil Hp]|[_ [stem Hstem]]].
    + exists EmptyString. rewrite Hnil, Hp. reflexivity.
    + exists (String sep stem). rewrite Hstem at 1. reflexivity.
  - destruct IH as [[Hnil Hp]|[Hpieces [stem Hstem]]].
    + left. rewrite Hnil, Hp. auto.
    + right. split; [exact Hpieces|].
      exists (String c stem).
      rewrite (last_default _ (String c (split sep rest).1) (split sep rest).1
                 Hpieces).
      rewrite Hstem at 1. reflexivity.
Qed.

Lemma last_piece_no_sep (sep : ascii) (s a b : string) :
  last_piece (split sep s) ≠ (a ++ String sep b)%string.
Proof.
  unfold last_piece. revert a b. induction s as [|c rest IH]; intros a b.
  - destruct a; discriminate.
  - rewrite split_cons.
    destruct (Ascii.eqb_spec c sep) as [->|Hne]; cbn [fst snd].
    + rewrite last_cons. apply IH.
    + destruct (split sep rest).2 as [|p pieces] eqn:Hpieces.
      * cbn [List.last] in *. destruct a as [|c' a]; simpl.
        -- intros H. injection H as H _. contradiction.
        -- intros H. injection H as _ H. exact (IH a b H).
      * rewrite (last_default (p :: pieces) (String c (split sep rest).1)
                   (split sep rest).1) by discriminate.
        apply IH.
Qed.

(** A text that ends with a separator and a piece without separator is
    cut in one way only. *)
Lemma cut_unique (sep : ascii) (a1 a2 e1 e2 : string) :
  (∀ a b, e1 ≠ (a ++ String sep b)%string) →
  (∀ a b, e2 ≠ (a ++ String sep b)%string) →
  (a1 ++ String sep e1)%string = (a2 ++ String sep e2)%string →
  a1 = a2 ∧ e1 = e2.
Proof.
  intros H1 H2. revert a2.
  induction a1 as [|c a1 IH]; intros [|c2 a2] H; simpl in H.
  - injection H as ->. auto.
  - injection H as _ H. exfalso. exact (H1 _ _ H).
  - injection H as _ H. exfalso. exact (H2 _ _ (eq_sym H)).
  - injection H as -> H. destruct (IH a2 H) as [-> ->]. auto.
Qed.

(** X13. The extension [upload_image] gives the stored file,
    [file.filename.split(".")[-1]], has no dot; the filename is the
    extension itself when it has no dot (the whole filename becomes the
    extension), and otherwise ends with a dot and the extension. *)
Theorem file_extension_after_last_dot (filename : string) :
  let file_extension := last_piece (split "." filename) in
  (∀ a b, file_extension ≠ (a ++ "." ++ b)%string)
  ∧ ((∀ a b, filename ≠ (a ++ "." ++ b)%string) → file_extension = filename)
  ∧ ((∃ a b, filename = (a ++ "." ++ b)%string) →
     ∃ stem, filename = (stem ++ "." ++ file_extension)%string).
Proof.
  intros file_extension. split; [|split].
  - intros a b. apply last_piece_no_sep.
  - intros Hno. destruct (split_spec "." filename) as [[Hnil Hp]|[_ [stem H]]].
    + unfold file_extension, last_piece. rewrite Hnil. exact Hp.
    + exfalso. exact (Hno _ _ H).
  - intros (a & b & Hab).
    destruct (split_spec "." filename) as [[Hnil Hp]|[_ [stem H]]].
    + exfalso. apply (last_piece_no_sep "." filename a b).
      unfold last_piece. rewrite Hnil. simpl. rewrite Hp. exact Hab.
    + exists stem. exact H.
Qed.

Lemma file_extension_after_last_dot_witness :
  last_piece (split "." "README") = "README"
  ∧ ∃ stem, "menu.final.png" = (stem ++ "." ++ last_piece (split "." "menu.final.png"))%string.
Proof.
  split.
  - apply (file_extension_after_last_dot "README"). intros a b H.
    repeat (destruct a as [|? a]; [discriminate H|]; injection H as _ H).
    destruct a; discriminate H.
  - apply (file_extension_after_last_dot "menu.final.png").
    exists "menu.final", "png". reflexivity.
Defined.

Lemma upload_path_unique (u1 u2 name1 name2 : string) :
  ("uploads/" ++ u1 ++ "." ++ last_piece (split "." name1))%string
  = ("uploads/" ++ u2 ++ "." ++ last_piece (split "." name2))%string →
  u1 = u2.
Proof.
  intros H. simpl in H. injection H as H.
  apply (cut_unique "." u1 u2) in H as [-> _];
    [reflexivity | apply last_piece_no_sep | apply last_piece_no_sep].
Qed.



(** *** QR code *)

Lemma png_has_no_dot (a b : string) : "png" ≠ (a ++ "." ++ b)%string.
Proof.
  intros H.
  repeat (destruct a as [|? a]; [discriminate H|]; injection H as _ H).
  destruct a; discriminate H.
Qed.


